(** * AgentID: the dual-purpose identifier of packages/coretypes/agentid.go

    An [AgentID] is a fixed-length byte array that names either a ledger
    address or a smart contract.  The variant is told by the hname field:
    four zero bytes mean "address".  This file embeds the functions of
    agentid.go and proves the properties of its constructors, accessors
    and codecs. *)

From Stdlib Require Import String Ascii Bool Arith NArith ZArith Lia List.
From Stdlib.Strings Require Byte.
Import ListNotations.

Local Open Scope list_scope.

Abbreviation byte := Byte.byte.
Abbreviation x00 := Byte.x00.

(** ** Go values *)

(** The [error] values that flow through agentid.go. *)
Inductive error : Type :=
| ErrWrongDataLength                 (* package variable of coretypes *)
| errors_New (msg : string)          (* errors.New(msg) *)
| io_EOF                             (* io.EOF *)
| pkg_error (msg : string).          (* an error made by an imported package *)

(** A call with an [err] result that carries no value on failure. *)
Inductive result (A : Type) : Type :=
| Ok (a : A)
| Err (e : error).
Arguments Ok {A} a.
Arguments Err {A} e.

(** What [panic] is called with. *)
Inductive panic_value : Type :=
| panic_string (s : string)
| panic_error (e : error).

(** A call that either returns or panics. *)
Inductive outcome (A : Type) : Type :=
| Returns (a : A)
| Panics (v : panic_value).
Arguments Returns {A} a.
Arguments Panics {A} v.

Definition outcome_bind {A B} (o : outcome A) (k : A -> outcome B) : outcome B :=
  match o with
  | Returns a => k a
  | Panics v => Panics v
  end.

Notation "x <- o ;; k" := (outcome_bind o (fun x => k))
  (at level 61, o at next level, right associativity).

(** ** Byte slices *)

Definition zero_bytes (n : nat) : list byte := repeat x00 n.

(** [copy(dst, src)]: the first [min(len(dst), len(src))] bytes of [dst] are
    overwritten, the rest of [dst] stays. *)
Definition copy (dst src : list byte) : list byte :=
  firstn (length dst) src ++ skipn (length src) dst.

Lemma length_copy (dst src : list byte) : length (copy dst src) = length dst.
Proof.
  unfold copy. rewrite length_app, length_firstn, length_skipn. lia.
Qed.

(** [a[lo:hi]] *)
Definition slice (lo hi : nat) (a : list byte) : list byte :=
  skipn lo (firstn hi a).

(** [bytes.Equal] *)
Fixpoint bytes_Equal (a b : list byte) : bool :=
  match a, b with
  | [], [] => true
  | x :: a', y :: b' => Byte.eqb x y && bytes_Equal a' b'
  | _, _ => false
  end.

(** [s[:n]] and [s[n:]] on a string of at least [n] bytes. *)
Fixpoint string_take (n : nat) (s : string) : string :=
  match n, s with
  | S n', String c s' => String c (string_take n' s')
  | _, _ => EmptyString
  end.

Fixpoint string_drop (n : nat) (s : string) : string :=
  match n, s with
  | S n', String _ s' => string_drop n' s'
  | _, _ => s
  end.

(** ** Imported packages *)

(** github.com/iotaledger/goshimmer/packages/ledgerstate, as far as
    agentid.go calls it.  [Address_Array] is [Address.Array()], which
    returns a [[AddressLength]byte]; [AddressFromBytes] returns the address
    and the number of bytes it consumed, or an error. *)
Class ledgerstate : Type := {
  AddressLength : nat;
  Address : Type;
  Address_Array : Address -> list byte;
  Address_Array_length : forall a, length (Address_Array a) = AddressLength;
  Address_String : Address -> string;
  AddressFromBytes : list byte -> result (Address * nat);
  AddressFromBase58EncodedString : string -> result Address
}.

(** github.com/mr-tron/base58 *)
Class base58 : Type := {
  base58_Encode : list byte -> string
}.

(** ** The rest of package coretypes *)

(** Modelled from the spec: the declarations of hname.go, chainid.go and
    contractid.go are not part of the sources at hand.  The handle is a
    numeric field of [HnameLength] bytes ([IsAddress] compares it with a
    [[4]byte]); the chain field holds "the address's raw bytes", so it is as
    long as an address; a contract locator is the chain field followed by the
    handle field, and an [AgentID] is as long as a contract locator. *)
Definition HnameLength : nat := 4.

Definition ChainIDLength `{ledgerstate} : nat := AddressLength.

Definition ContractIDLength `{ledgerstate} : nat := ChainIDLength + HnameLength.

Definition Hname : Type := N.
Definition ChainID : Type := list byte.
Definition ContractID : Type := list byte.

Definition byte_of_N (n : N) : byte :=
  match Byte.of_N (n mod 256) with
  | Some b => b
  | None => x00
  end.

(** Modelled from the spec: the handle's bytes.  The value 0 is "the all-zero
    sentinel value of length H"; a 32-bit handle is laid out here with its
    low byte first. *)
Definition Hname_Bytes (h : Hname) : list byte :=
  [ byte_of_N h; byte_of_N (h / 256); byte_of_N (h / 65536);
    byte_of_N (h / 16777216) ].

Fixpoint Hname_of_bytes (b : list byte) : Hname :=
  match b with
  | [] => 0
  | x :: b' => Byte.to_N x + 256 * Hname_of_bytes b'
  end%N.

(** Modelled from the spec: [NewContractID(chid, hname)], "the chain field"
    followed by "the handle field". *)
Definition NewContractID (chid : ChainID) (contractHn : Hname) : ContractID :=
  chid ++ Hname_Bytes contractHn.

(** Modelled from the spec: the handle of a contract locator, read from the
    [HnameLength] bytes at offset [ChainIDLength]. *)
Definition ContractID_Hname `{ledgerstate} (c : ContractID) : Hname :=
  Hname_of_bytes (slice ChainIDLength (ChainIDLength + HnameLength) c).

(** Modelled from the spec: the contract locator's "own canonical text
    encoding" and its parser, [ContractID.String] and
    [NewContractIDFromString] of contractid.go, kept opaque. *)
Class contractid_text : Type := {
  ContractID_String : ContractID -> string;
  NewContractIDFromString : string -> result ContractID
}.

(** io.Reader: [Read r p] is [r.Read(p)]; it gives the reader after the call,
    the buffer after the call, [n] and [err]. *)
Class io_Reader (R : Type) : Type := {
  Read : R -> list byte -> R * list byte * nat * option error
}.

(** ** agentid.go *)

Section agentid.
Context `{L : ledgerstate} `{B : base58} `{T : contractid_text}.

(** [const AgentIDLength = ContractIDLength] *)
Definition AgentIDLength : nat := ContractIDLength.

(** [type AgentID [AgentIDLength]byte] *)
Definition AgentID : Type := list byte.

(** The values of the array type. *)
Definition is_AgentID (a : AgentID) : Prop := length a = AgentIDLength.
Definition is_ContractID (c : ContractID) : Prop := length c = ContractIDLength.

Definition NewAgentIDFromContractID (id : ContractID) : AgentID :=
  let ret := zero_bytes AgentIDLength in
  copy ret id.

Definition NewAgentIDFromAddress (addr : Address) : AgentID :=
  NewAgentIDFromContractID (NewContractID (Address_Array addr) 0%N).

Definition NewAgentIDFromBytes (data : list byte) : AgentID * option error :=
  let ret := zero_bytes AgentIDLength in
  if negb (length data =? AgentIDLength) then (ret, Some ErrWrongDataLength)
  else (copy ret data, None).

Definition chainIDField (a : AgentID) : list byte :=
  slice 0 ChainIDLength a.

Definition hnameField (a : AgentID) : list byte :=
  slice ChainIDLength (ChainIDLength + HnameLength) a.

Definition IsAddress (a : AgentID) : bool :=
  let z := zero_bytes 4 in
  bytes_Equal (hnameField a) z.

Definition MustAddress (a : AgentID) : outcome Address :=
  if negb (IsAddress a) then Panics (panic_string "not an address")
  else
    match AddressFromBytes (chainIDField a) with
    | Err err => Panics (panic_error err)
    | Ok (addr, _) => Returns addr
    end.

Definition MustContractID (a : AgentID) : outcome ContractID :=
  if IsAddress a then Panics (panic_string "not a contract")
  else
    let ret := zero_bytes ContractIDLength in
    Returns (copy ret a).

(** [func (a AgentID) String() string] *)
Definition AgentID_String (a : AgentID) : outcome string :=
  if IsAddress a then
    addr <- MustAddress a ;;
    Returns ("A/" ++ Address_String addr)%string
  else
    cid <- MustContractID a ;;
    Returns ("C/" ++ ContractID_String cid)%string.

Definition NewAgentIDFromString (s : string) : AgentID * option error :=
  let ret := zero_bytes AgentIDLength in
  if String.length s <? 2 then (ret, Some (errors_New "invalid length"))
  else
    let pre := string_take 2 s in
    if String.eqb pre "A/" then
      match AddressFromBase58EncodedString (string_drop 2 s) with
      | Err err => (ret, Some err)
      | Ok addr => (NewAgentIDFromAddress addr, None)
      end
    else if String.eqb pre "C/" then
      match NewContractIDFromString (string_drop 2 s) with
      | Err err => (ret, Some err)
      | Ok cid => (NewAgentIDFromContractID cid, None)
      end
    else (ret, Some (errors_New "invalid prefix")).

(** [ReadAgentID(r, agentID)]: the reader and [*agentID] after the call,
    and the error returned. *)
Definition ReadAgentID {R} `{io_Reader R} (r : R) (agentID : AgentID)
  : R * AgentID * option error :=
  let '(r', agentID', n, err) := Read r agentID in
  match err with
  | Some e => (r', agentID', Some e)
  | None =>
      if negb (n =? AgentIDLength)
      then (r', agentID', Some (errors_New "error while reading agent ID"))
      else (r', agentID', None)
  end.

Definition Base58 (a : AgentID) : string := base58_Encode a.

(** What the text round trip needs of the two text codecs at [a]: the
    variant's parser reads the variant's text back to the same bytes. *)
Definition reads_back (a : AgentID) : Prop :=
  if IsAddress a then
    exists addr n addr',
      AddressFromBytes (chainIDField a) = Ok (addr, n)
      /\ AddressFromBase58EncodedString (Address_String addr) = Ok addr'
      /\ Address_Array addr' = chainIDField a
  else
    exists cid,
      NewContractIDFromString (ContractID_String a) = Ok cid
      /\ NewAgentIDFromContractID cid = a.

End agentid.

(** ** A reference instance of the imported packages

    The definitions above are stated over any implementation of the imported
    packages.  To run them on concrete identifiers this module gives one:
    an address is an address-type byte below 3 followed by a 32-byte digest,
    its text form is the base-58 text of its 33 bytes, and a contract
    locator's text form is the base-58 text of its bytes. *)
Module Reference.

Definition alphabet : string :=
  "123456789ABCDEFGHJKLMNPQRSTUVWXYZabcdefghijkmnopqrstuvwxyz".

(** The big-endian number a byte slice spells. *)
Fixpoint be_value (acc : N) (b : list byte) : N :=
  match b with
  | [] => acc
  | x :: b' => be_value (256 * acc + Byte.to_N x) b'
  end.

Fixpoint leading (z : byte) (b : list byte) : nat :=
  match b with
  | x :: b' => if Byte.eqb x z then S (leading z b') else 0
  | [] => 0
  end.

(** The digits of [n] in [base], most significant first. *)
Fixpoint digits (fuel : nat) (base n : N) (acc : list N) : list N :=
  match fuel with
  | 0 => acc
  | S fuel' =>
      if (n =? 0)%N then acc
      else digits fuel' base (n / base) ((n mod base)%N :: acc)
  end.

Definition digit_char (d : N) : ascii :=
  match String.get (N.to_nat d) alphabet with
  | Some c => c
  | None => "1"%char
  end.

Fixpoint char_digit (c : ascii) (s : string) (i : N) : option N :=
  match s with
  | EmptyString => None
  | String d s' => if Ascii.eqb c d then Some i else char_digit c s' (i + 1)%N
  end.

Definition Encode (b : list byte) : string :=
  string_of_list_ascii
    (repeat "1"%char (leading x00 b)
     ++ map digit_char (digits (8 * length b) 58 (be_value 0 b) [])).

Fixpoint decode_value (acc : N) (s : list ascii) : option N :=
  match s with
  | [] => Some acc
  | c :: s' =>
      match char_digit c alphabet 0 with
      | None => None
      | Some d => decode_value (58 * acc + d) s'
      end
  end.

Fixpoint leading_ones (s : list ascii) : nat :=
  match s with
  | c :: s' => if Ascii.eqb c "1" then S (leading_ones s') else 0
  | [] => 0
  end.

Definition Decode (s : string) : result (list byte) :=
  let cs := list_ascii_of_string s in
  match decode_value 0 cs with
  | None => Err (pkg_error "invalid base58 digit")
  | Some n =>
      Ok (zero_bytes (leading_ones cs)
          ++ map byte_of_N (digits (6 * length cs) 256 n []))
  end.

Definition address_from_bytes (b : list byte) : result (list byte * nat) :=
  match b with
  | t :: _ =>
      if length b <? 33 then Err (pkg_error "not enough bytes")
      else if (Byte.to_N t <? 3)%N then Ok (firstn 33 b, 33)
      else Err (pkg_error "unsupported address type")
  | [] => Err (pkg_error "not enough bytes")
  end.

Definition address_from_base58 (s : string) : result (list byte) :=
  match Decode s with
  | Err e => Err e
  | Ok b =>
      match address_from_bytes b with
      | Err e => Err e
      | Ok (a, _) => Ok a
      end
  end.

#[export] Instance ledger : ledgerstate := {|
  AddressLength := 33;
  Address := list byte;
  Address_Array := copy (zero_bytes 33);
  Address_Array_length := fun a => length_copy (zero_bytes 33) a;
  Address_String := Encode;
  AddressFromBytes := address_from_bytes;
  AddressFromBase58EncodedString := address_from_base58
|}.

#[export] Instance b58 : base58 := {| base58_Encode := Encode |}.

#[export] Instance locator_text : contractid_text := {|
  ContractID_String := Encode;
  NewContractIDFromString := fun s =>
    match Decode s with
    | Err e => Err e
    | Ok b =>
        if length b =? 37 then Ok b
        else Err (pkg_error "wrong locator length")
    end
|}.

(** A plain in-memory byte stream: [Read] hands out what is left, at most
    [len(p)] bytes, and [io.EOF] once nothing is left. *)
#[export] Instance stream : io_Reader (list byte) := {|
  Read := fun r p =>
    match r with
    | [] => (r, p, 0, match p with [] => None | _ => Some io_EOF end)
    | _ =>
        let n := Nat.min (length p) (length r) in
        (skipn n r, copy p (firstn n r), n, None)
    end
|}.

(** Sample identifiers. *)
Definition addr1 : @Address ledger :=
  Byte.x00 :: Byte.x01 :: Byte.xfe :: repeat Byte.x2a 30.

Definition agent_addr1 : AgentID := addr1 ++ zero_bytes 4.

Definition locator7 : ContractID :=
  addr1 ++ Hname_Bytes 7%N.

(** Handle zero, chain field with the undefined address type 3. *)
Definition agent_type3 : AgentID :=
  Byte.x03 :: zero_bytes 32 ++ zero_bytes 4.

(** The text forms of [agent_addr1] and [locator7]. *)
Definition text_addr1 : string :=
  "A/18nC9jh8gfvxeqqD5Ag3cctw9vJ3zFnsvBfbF3znyM3w".

Definition text_locator7 : string :=
  "C/1suShN6ZaiahP2u9oYUZBuCY53kAcbnwQfkNvcTCA61Sc3YEK".

End Reference.

(** ** trclient/client.go: decoding the token registry *)

(** What [decodeRegistry] imports: [balance.Color], an array type that is the
    key of the registry map, with [balance.ColorFromBytes] (the colour and the
    number of bytes consumed, or an error); and [tokenregistry.TokenMetadata]
    with its [Read] method, run on a fresh value over
    [bytes.NewReader(value)]: the metadata read, or an error. *)
Class registry_codec : Type := {
  Color : Type;
  Color_eq_dec : forall c d : Color, {c = d} + {c <> d};
  ColorFromBytes : list byte -> result (Color * nat);
  TokenMetadata : Type;
  TokenMetadata_Read : list byte -> result TokenMetadata
}.

(** An entry of [stateapi.DictResult.Entries]. *)
Record Entry : Type := { Key : list byte; Value : list byte }.

Section trclient.
Context `{RC : registry_codec}.

(** [map[balance.Color]*tokenregistry.TokenMetadata] *)
Definition Registry : Type := Color -> option TokenMetadata.

(** [make(map[...])] *)
Definition Registry_make : Registry := fun _ => None.

(** [registry[color] = tm] *)
Definition Registry_set (registry : Registry) (color : Color)
    (tm : TokenMetadata) : Registry :=
  fun c => if Color_eq_dec color c then Some tm else registry c.

(** The [for _, e := range result.Entries] loop of [decodeRegistry], from
    the entries still to visit and the map built so far. *)
Fixpoint decodeRegistry_range (entries : list Entry) (registry : Registry)
    : result Registry :=
  match entries with
  | [] => Ok registry
  | e :: entries' =>
      match ColorFromBytes (Key e) with
      | Err err => Err err
      | Ok (color, _) =>
          match TokenMetadata_Read (Value e) with
          | Err err => Err err
          | Ok tm => decodeRegistry_range entries' (Registry_set registry color tm)
          end
      end
  end.

Definition decodeRegistry (result_Entries : list Entry) : result Registry :=
  let registry := Registry_make in
  decodeRegistry_range result_Entries registry.

(** The entry decodes: its key is a colour and its value is metadata. *)
Definition entry_decodes (e : Entry) (color : Color) (tm : TokenMetadata) : Prop :=
  (exists n, ColorFromBytes (Key e) = Ok (color, n))
  /\ TokenMetadata_Read (Value e) = Ok tm.

(** The key of the entry is not the colour [c]. *)
Definition entry_misses (c : Color) (e : Entry) : Prop :=
  forall color n, ColorFromBytes (Key e) = Ok (color, n) -> color <> c.

End trclient.

(** A reference instance of what [decodeRegistry] imports: a colour is the
    first 32 bytes of the key, metadata is the value's bytes, of which there
    must be at least one. *)
Module ReferenceRegistry.

#[export] Instance codec : registry_codec := {|
  Color := list byte;
  Color_eq_dec := list_eq_dec Byte.byte_eq_dec;
  ColorFromBytes := fun b =>
    if length b <? 32 then Err (pkg_error "not enough bytes")
    else Ok (firstn 32 b, 32);
  TokenMetadata := list byte;
  TokenMetadata_Read := fun v =>
    match v with
    | [] => Err io_EOF
    | _ => Ok v
    end
|}.

Definition red : list byte := repeat Byte.x01 32.
Definition blue : list byte := repeat Byte.x02 32.
Definition green : list byte := repeat Byte.x03 32.

Definition entries3 : list Entry :=
  [ {| Key := red; Value := [Byte.x0a] |};
    {| Key := blue; Value := [Byte.x0b] |};
    {| Key := red; Value := [Byte.x0c] |} ].

End ReferenceRegistry.

(** ** Byte slices: lemmas *)

Lemma bytes_Equal_spec (a b : list byte) : bytes_Equal a b = true <-> a = b.
Proof.
  revert b. induction a as [|x a IH]; intros [|y b]; simpl; split;
    try congruence; try reflexivity.
  - rewrite andb_true_iff. intros [Hxy Hab].
    apply Byte.byte_dec_bl in Hxy. apply IH in Hab. congruence.
  - intros E. injection E as -> ->. rewrite andb_true_iff. split.
    + now apply Byte.byte_dec_lb.
    + now apply IH.
Qed.

Lemma bytes_Equal_false (a b : list byte) : bytes_Equal a b = false <-> a <> b.
Proof.
  rewrite <- bytes_Equal_spec. now destruct (bytes_Equal a b).
Qed.

Lemma length_zero_bytes (n : nat) : length (zero_bytes n) = n.
Proof. apply repeat_length. Qed.

Lemma copy_full (dst src : list byte) :
  length src = length dst -> copy dst src = src.
Proof.
  intros E. unfold copy. rewrite <- E, firstn_all.
  rewrite skipn_all2 by lia. apply app_nil_r.
Qed.

Lemma slice_prefix (n : nat) (a b : list byte) :
  length a = n -> slice 0 n (a ++ b) = a.
Proof.
  intros <-. unfold slice. simpl.
  rewrite firstn_app, firstn_all, Nat.sub_diag. simpl. apply app_nil_r.
Qed.

Lemma slice_suffix (n m : nat) (a b : list byte) :
  length a = n -> length b = m -> slice n (n + m) (a ++ b) = b.
Proof.
  intros <- <-. unfold slice.
  rewrite firstn_app, firstn_all2 by lia.
  replace (length a + length b - length a) with (length b) by lia.
  rewrite firstn_all, skipn_app, skipn_all, Nat.sub_diag. reflexivity.
Qed.

Lemma slice_split (n m : nat) (a : list byte) :
  length a = n + m -> a = slice 0 n a ++ slice n (n + m) a.
Proof.
  intros E. unfold slice. simpl.
  rewrite <- E, firstn_all.
  symmetry. apply firstn_skipn.
Qed.

Lemma length_slice (lo hi : nat) (a : list byte) :
  hi <= length a -> length (slice lo hi a) = hi - lo.
Proof.
  intros H. unfold slice. rewrite length_skipn, length_firstn. lia.
Qed.

(** ** Handles: lemmas *)

Lemma to_N_zero (x : byte) : Byte.to_N x = 0%N -> x = x00.
Proof.
  intros E. apply (f_equal Byte.of_N) in E.
  rewrite Byte.of_to_N in E. simpl in E. congruence.
Qed.

Lemma Hname_of_bytes_zero (b : list byte) :
  Hname_of_bytes b = 0%N <-> b = zero_bytes (length b).
Proof.
  unfold zero_bytes.
  induction b as [|x b IH]; cbn [Hname_of_bytes length repeat].
  - tauto.
  - split.
    + intros E.
      assert (Byte.to_N x = 0%N /\ Hname_of_bytes b = 0%N) as [Hx Hb] by lia.
      apply to_N_zero in Hx. apply IH in Hb. congruence.
    + intros E. injection E as -> Hb.
      apply IH in Hb. rewrite Hb. reflexivity.
Qed.

Lemma Hname_Bytes_zero : Hname_Bytes 0%N = zero_bytes HnameLength.
Proof. reflexivity. Qed.

Lemma length_Hname_Bytes (h : Hname) : length (Hname_Bytes h) = HnameLength.
Proof. reflexivity. Qed.

(** ** agentid.go: lemmas *)

Section agentid_facts.
Context `{L : ledgerstate} `{B : base58} `{T : contractid_text}.

Lemma NewAgentIDFromContractID_is_AgentID (c : ContractID) :
  is_AgentID (NewAgentIDFromContractID c).
Proof.
  unfold is_AgentID, NewAgentIDFromContractID.
  rewrite length_copy. apply length_zero_bytes.
Qed.

Lemma NewAgentIDFromContractID_bytes (c : ContractID) :
  is_ContractID c -> NewAgentIDFromContractID c = c.
Proof.
  intros H. unfold NewAgentIDFromContractID. apply copy_full.
  rewrite length_zero_bytes. exact H.
Qed.

Lemma NewContractID_is_ContractID (chid : ChainID) (h : Hname) :
  length chid = ChainIDLength -> is_ContractID (NewContractID chid h).
Proof.
  intros H. unfold is_ContractID, NewContractID, ContractIDLength.
  rewrite length_app, length_Hname_Bytes. lia.
Qed.

Lemma NewAgentIDFromAddress_bytes (addr : Address) :
  NewAgentIDFromAddress addr = Address_Array addr ++ zero_bytes HnameLength.
Proof.
  unfold NewAgentIDFromAddress.
  rewrite NewAgentIDFromContractID_bytes.
  - reflexivity.
  - apply NewContractID_is_ContractID, Address_Array_length.
Qed.

Lemma IsAddress_true (a : AgentID) :
  IsAddress a = true <-> hnameField a = zero_bytes HnameLength.
Proof. apply bytes_Equal_spec. Qed.

Lemma IsAddress_false (a : AgentID) :
  IsAddress a = false <-> hnameField a <> zero_bytes HnameLength.
Proof. apply bytes_Equal_false. Qed.

Lemma length_hnameField (a : AgentID) :
  is_AgentID a -> length (hnameField a) = HnameLength.
Proof.
  intros H. unfold hnameField. rewrite length_slice.
  - lia.
  - rewrite H. reflexivity.
Qed.

Lemma AgentID_fields (a : AgentID) :
  is_AgentID a -> a = chainIDField a ++ hnameField a.
Proof. intros H. apply slice_split. exact H. Qed.

Lemma IsAddress_NewAgentIDFromAddress (addr : Address) :
  IsAddress (NewAgentIDFromAddress addr) = true.
Proof.
  apply IsAddress_true. rewrite NewAgentIDFromAddress_bytes.
  unfold hnameField. apply slice_suffix.
  - apply Address_Array_length.
  - apply length_zero_bytes.
Qed.

Lemma chainIDField_NewAgentIDFromAddress (addr : Address) :
  chainIDField (NewAgentIDFromAddress addr) = Address_Array addr.
Proof.
  rewrite NewAgentIDFromAddress_bytes. unfold chainIDField.
  apply slice_prefix, Address_Array_length.
Qed.

Lemma MustContractID_returns (a : AgentID) :
  is_AgentID a -> IsAddress a = false -> MustContractID a = Returns a.
Proof.
  intros Ha Hc. unfold MustContractID. rewrite Hc. cbv zeta.
  apply f_equal, copy_full. rewrite length_zero_bytes. exact Ha.
Qed.

End agentid_facts.

(** ** The text form: lemmas *)

Lemma string_take_drop (s : string) :
  2 <= String.length s -> s = (string_take 2 s ++ string_drop 2 s)%string.
Proof.
  destruct s as [|c [|d s]]; simpl; intros H; try lia. reflexivity.
Qed.

Section text_facts.
Context `{L : ledgerstate} `{T : contractid_text}.

Lemma NewAgentIDFromString_A (rest : string) :
  NewAgentIDFromString ("A/" ++ rest) =
  match AddressFromBase58EncodedString rest with
  | Err err => (zero_bytes AgentIDLength, Some err)
  | Ok addr => (NewAgentIDFromAddress addr, None)
  end.
Proof. reflexivity. Qed.

Lemma NewAgentIDFromString_C (rest : string) :
  NewAgentIDFromString ("C/" ++ rest) =
  match NewContractIDFromString rest with
  | Err err => (zero_bytes AgentIDLength, Some err)
  | Ok cid => (NewAgentIDFromContractID cid, None)
  end.
Proof. reflexivity. Qed.

Lemma AgentID_String_address (a : AgentID) :
  IsAddress a = true ->
  AgentID_String a =
  match AddressFromBytes (chainIDField a) with
  | Err err => Panics (panic_error err)
  | Ok (addr, _) => Returns ("A/" ++ Address_String addr)%string
  end.
Proof.
  intros Ha. unfold AgentID_String, MustAddress. rewrite Ha. simpl.
  destruct (AddressFromBytes (chainIDField a)) as [[addr n]|e]; reflexivity.
Qed.

Lemma AgentID_String_contract (a : AgentID) :
  is_AgentID a -> IsAddress a = false ->
  AgentID_String a = Returns ("C/" ++ ContractID_String a)%string.
Proof.
  intros Hlen Ha. unfold AgentID_String.
  rewrite MustContractID_returns by assumption. rewrite Ha. reflexivity.
Qed.

End text_facts.

(** ** Properties of agentid.go *)

Section properties.
Context `{L : ledgerstate} `{B : base58} `{T : contractid_text}.

(** C2: [IsAddress] is true exactly when the [HnameLength] bytes at offset
    [ChainIDLength] are all zero: for an identifier made of a chain field
    followed by a handle field, exactly when the handle field is zero.  So
    an AgentID made from a contract locator is classified as an address
    exactly when the locator's handle is 0, as it is for
    [NewContractID chid 0]. *)
Theorem IsAddress_iff_zero_handle :
  (forall a : AgentID,
      IsAddress a = true
      <-> firstn HnameLength (skipn ChainIDLength a) = repeat x00 HnameLength)
  /\ (forall chain h : list byte,
        length chain = ChainIDLength -> length h = HnameLength ->
        (IsAddress (chain ++ h) = true <-> h = repeat x00 HnameLength))
  /\ (forall c : ContractID,
        is_ContractID c ->
        (IsAddress (NewAgentIDFromContractID c) = true
         <-> ContractID_Hname c = 0%N))
  /\ (forall chid : ChainID,
        length chid = ChainIDLength ->
        IsAddress (NewAgentIDFromContractID (NewContractID chid 0%N)) = true).
Proof.
  split; [|split; [|split]].
  - intros a. rewrite IsAddress_true. unfold hnameField, slice, zero_bytes.
    rewrite <- firstn_skipn_comm. tauto.
  - intros chain h Hchain Hh. rewrite IsAddress_true.
    unfold hnameField. rewrite (slice_suffix _ _ chain h Hchain Hh).
    unfold zero_bytes. tauto.
  - intros c Hc.
    rewrite NewAgentIDFromContractID_bytes by exact Hc.
    rewrite IsAddress_true. unfold ContractID_Hname. fold (hnameField c).
    rewrite Hname_of_bytes_zero, length_hnameField by exact Hc. tauto.
  - intros chid Hlen.
    rewrite NewAgentIDFromContractID_bytes
      by now apply NewContractID_is_ContractID.
    apply IsAddress_true. unfold hnameField, NewContractID.
    apply slice_suffix; [exact Hlen | reflexivity].
Qed.

(** C3: an identifier is of exactly one variant, and the accessor of the
    other variant panics: [MustAddress] when [IsAddress] is false,
    [MustContractID] when [IsAddress] is true. *)
Theorem wrong_variant_panics (a : AgentID) :
  (IsAddress a = true \/ IsAddress a = false)
  /\ ~ (IsAddress a = true /\ IsAddress a = false)
  /\ (IsAddress a = false ->
      MustAddress a = Panics (panic_string "not an address"))
  /\ (IsAddress a = true ->
      MustContractID a = Panics (panic_string "not a contract")).
Proof.
  repeat split.
  - destruct (IsAddress a); [left | right]; reflexivity.
  - intros [H1 H2]. congruence.
  - intros H. unfold MustAddress. rewrite H. reflexivity.
  - intros H. unfold MustContractID. rewrite H. reflexivity.
Qed.

(** C4: [NewAgentIDFromAddress] always yields an identifier; it is of the
    address variant, its chain field is the address's array, and
    [MustAddress] gives the address back (the address package decoding what
    [Array] encoded). *)
Theorem address_embedding (addr : Address) :
  is_AgentID (NewAgentIDFromAddress addr)
  /\ IsAddress (NewAgentIDFromAddress addr) = true
  /\ chainIDField (NewAgentIDFromAddress addr) = Address_Array addr
  /\ (forall n, AddressFromBytes (Address_Array addr) = Ok (addr, n) ->
      MustAddress (NewAgentIDFromAddress addr) = Returns addr).
Proof.
  split; [apply NewAgentIDFromContractID_is_AgentID|].
  split; [apply IsAddress_NewAgentIDFromAddress|].
  split; [apply chainIDField_NewAgentIDFromAddress|].
  intros n Hdec. unfold MustAddress.
  rewrite IsAddress_NewAgentIDFromAddress.
  rewrite chainIDField_NewAgentIDFromAddress, Hdec. reflexivity.
Qed.

(** C5: for a contract locator [c] whose handle is not 0,
    [NewAgentIDFromContractID c] is an identifier of the contract variant
    and [MustContractID] gives [c] back. *)
Theorem locator_embedding (c : ContractID) :
  is_ContractID c -> ContractID_Hname c <> 0%N ->
  is_AgentID (NewAgentIDFromContractID c)
  /\ IsAddress (NewAgentIDFromContractID c) = false
  /\ MustContractID (NewAgentIDFromContractID c) = Returns c.
Proof.
  intros Hc Hh.
  split; [apply NewAgentIDFromContractID_is_AgentID|].
  rewrite NewAgentIDFromContractID_bytes by exact Hc.
  assert (Hv : IsAddress c = false).
  { apply IsAddress_false. intros Hz. apply Hh.
    unfold ContractID_Hname. fold (hnameField c).
    apply Hname_of_bytes_zero.
    rewrite length_hnameField by exact Hc. exact Hz. }
  split; [exact Hv|].
  apply MustContractID_returns; assumption.
Qed.

(** C6: [NewAgentIDFromBytes] copies a buffer of [AgentIDLength] bytes
    verbatim, and fails with [ErrWrongDataLength] on any other length, so on
    lengths one less and one more. *)
Theorem NewAgentIDFromBytes_spec :
  (forall b : list byte,
      length b = AgentIDLength -> NewAgentIDFromBytes b = (b, None))
  /\ (forall b : list byte,
        length b <> AgentIDLength ->
        NewAgentIDFromBytes b
        = (zero_bytes AgentIDLength, Some ErrWrongDataLength))
  /\ (forall b : list byte,
        S (length b) = AgentIDLength \/ length b = S AgentIDLength ->
        snd (NewAgentIDFromBytes b) = Some ErrWrongDataLength).
Proof.
  assert (Hbad : forall b : list byte,
             length b <> AgentIDLength ->
             NewAgentIDFromBytes b
             = (zero_bytes AgentIDLength, Some ErrWrongDataLength)).
  { intros b Hb. unfold NewAgentIDFromBytes.
    apply Nat.eqb_neq in Hb. rewrite Hb. reflexivity. }
  split; [|split].
  - intros b Hb. unfold NewAgentIDFromBytes.
    rewrite (proj2 (Nat.eqb_eq _ _) Hb). simpl.
    rewrite copy_full; [reflexivity|].
    rewrite length_zero_bytes. exact Hb.
  - exact Hbad.
  - intros b Hb. rewrite Hbad; [reflexivity | lia].
Qed.

(** C7: [NewAgentIDFromString] rejects a string of fewer than two bytes with
    "invalid length", a longer one that starts with neither "A/" nor "C/"
    with "invalid prefix", and after a valid prefix it returns the error of
    the address parser or of the locator parser. *)
Theorem NewAgentIDFromString_rejects :
  (forall s, String.length s < 2 ->
      NewAgentIDFromString s
      = (zero_bytes AgentIDLength, Some (errors_New "invalid length")))
  /\ (forall s, 2 <= String.length s ->
        string_take 2 s <> "A/"%string -> string_take 2 s <> "C/"%string ->
        NewAgentIDFromString s
        = (zero_bytes AgentIDLength, Some (errors_New "invalid prefix")))
  /\ snd (NewAgentIDFromString "") = Some (errors_New "invalid length")
  /\ snd (NewAgentIDFromString "X") = Some (errors_New "invalid length")
  /\ snd (NewAgentIDFromString "X/abc") = Some (errors_New "invalid prefix")
  /\ (forall rest err,
        AddressFromBase58EncodedString rest = Err err ->
        NewAgentIDFromString ("A/" ++ rest)
        = (zero_bytes AgentIDLength, Some err))
  /\ (forall rest err,
        NewContractIDFromString rest = Err err ->
        NewAgentIDFromString ("C/" ++ rest)
        = (zero_bytes AgentIDLength, Some err)).
Proof.
  repeat split; try reflexivity.
  - intros s Hs. unfold NewAgentIDFromString.
    apply Nat.ltb_lt in Hs. rewrite Hs. reflexivity.
  - intros s Hs HA HC. unfold NewAgentIDFromString.
    apply Nat.ltb_ge in Hs. rewrite Hs.
    apply String.eqb_neq in HA, HC. rewrite HA, HC. reflexivity.
  - intros rest err H. rewrite NewAgentIDFromString_A, H. reflexivity.
  - intros rest err H. rewrite NewAgentIDFromString_C, H. reflexivity.
Qed.

(** C8 (amended): [String] renders an identifier by its variant.  With
    [IsAddress] true it decodes the first [ChainIDLength] bytes as an
    address: it returns "A/" followed by that address's text, or panics with
    the decoding error when these bytes are no address.  Otherwise it
    returns "C/" followed by the text of the identifier's bytes as a
    contract locator.  [Base58] is the base-58 encoding of the identifier's
    bytes, whatever the variant and whichever constructor made it. *)
Theorem String_renders_variant (a : AgentID) :
  is_AgentID a ->
  AgentID_String a =
    (if IsAddress a then
       match AddressFromBytes (firstn ChainIDLength a) with
       | Ok (addr, _) => Returns ("A/" ++ Address_String addr)%string
       | Err err => Panics (panic_error err)
       end
     else Returns ("C/" ++ ContractID_String a)%string)
  /\ (forall addr, MustAddress a = Returns addr ->
      AgentID_String a = Returns ("A/" ++ Address_String addr)%string)
  /\ (IsAddress a = false -> MustContractID a = Returns a)
  /\ Base58 a = base58_Encode a
  /\ (forall addr,
        Base58 (NewAgentIDFromAddress addr)
        = base58_Encode (Address_Array addr ++ repeat x00 HnameLength))
  /\ (forall c, is_ContractID c ->
        Base58 (NewAgentIDFromContractID c) = base58_Encode c).
Proof.
  intros Hlen. split; [|split; [|split; [|split; [|split]]]].
  - destruct (IsAddress a) eqn:Hv.
    + rewrite (AgentID_String_address a Hv). reflexivity.
    + now apply AgentID_String_contract.
  - intros addr Hm. unfold AgentID_String.
    destruct (IsAddress a) eqn:Hv.
    + rewrite Hm. reflexivity.
    + unfold MustAddress in Hm. rewrite Hv in Hm. discriminate.
  - intros Hv. now apply MustContractID_returns.
  - reflexivity.
  - intros addr. unfold Base58.
    rewrite NewAgentIDFromAddress_bytes. reflexivity.
  - intros c Hc. unfold Base58.
    now rewrite NewAgentIDFromContractID_bytes.
Qed.

(** C10: an identifier that [NewAgentIDFromString] returns for a string with
    the "A/" prefix is [NewAgentIDFromAddress] of the parsed address: its
    hname field is all zero, [IsAddress] holds, and [MustAddress] does not
    panic with "not an address". *)
Theorem parsed_address_has_zero_handle (s : string) (a : AgentID) :
  string_take 2 s = "A/"%string ->
  NewAgentIDFromString s = (a, None) ->
  (exists addr,
      AddressFromBase58EncodedString (string_drop 2 s) = Ok addr
      /\ a = NewAgentIDFromAddress addr)
  /\ hnameField a = zero_bytes HnameLength
  /\ IsAddress a = true
  /\ MustAddress a <> Panics (panic_string "not an address").
Proof.
  intros Hpre Hparse.
  assert (Hlen : 2 <= String.length s).
  { destruct s as [|c [|d s]]; simpl in *; try discriminate; lia. }
  rewrite (string_take_drop s Hlen), Hpre, NewAgentIDFromString_A in Hparse.
  destruct (AddressFromBase58EncodedString (string_drop 2 s)) as [addr|e];
    [|discriminate].
  injection Hparse as <-.
  assert (Hv := IsAddress_NewAgentIDFromAddress addr).
  split; [exists addr; split; reflexivity|].
  split; [now apply IsAddress_true|].
  split; [exact Hv|].
  unfold MustAddress. rewrite Hv. simpl.
  destruct (AddressFromBytes _) as [[x n]|e]; discriminate.
Qed.

End properties.

Section roundtrip.
Context `{L : ledgerstate} `{T : contractid_text}.

(** C1 (amended): parsing inverts rendering exactly on the identifiers whose
    variant text is read back by the variant's parser: for an address
    identifier the chain field decodes to an address and the address parser
    maps that address's text to an address with the same bytes; for a
    contract identifier the locator parser maps the locator's text back to
    the locator.  On these, and only on these, [String] returns a string
    that [NewAgentIDFromString] parses to the identifier itself. *)
Theorem text_roundtrip (a : AgentID) :
  is_AgentID a ->
  (reads_back a <->
   exists s, AgentID_String a = Returns s
             /\ NewAgentIDFromString s = (a, None)).
Proof.
  intros Hlen. unfold reads_back.
  destruct (IsAddress a) eqn:Hv.
  - rewrite (AgentID_String_address a Hv). split.
    + intros (addr & n & addr' & Hdec & Htxt & Harr).
      rewrite Hdec. eexists. split; [reflexivity|].
      rewrite NewAgentIDFromString_A, Htxt. f_equal.
      rewrite NewAgentIDFromAddress_bytes, Harr.
      apply IsAddress_true in Hv. rewrite <- Hv.
      symmetry. now apply AgentID_fields.
    + intros (s & Hs & Hparse).
      destruct (AddressFromBytes (chainIDField a)) as [[addr n]|e];
        [|discriminate].
      assert (Es : s = ("A/" ++ Address_String addr)%string) by congruence.
      subst s. rewrite NewAgentIDFromString_A in Hparse.
      destruct (AddressFromBase58EncodedString (Address_String addr))
        as [addr'|e] eqn:Htxt; [|discriminate].
      injection Hparse as Hparse.
      exists addr, n, addr'. repeat split; [exact Htxt|].
      rewrite <- Hparse. symmetry. apply chainIDField_NewAgentIDFromAddress.
  - rewrite (AgentID_String_contract a Hlen Hv). split.
    + intros (cid & Htxt & Hcid).
      eexists. split; [reflexivity|].
      rewrite NewAgentIDFromString_C, Htxt. now f_equal.
    + intros (s & Hs & Hparse).
      assert (Es : s = ("C/" ++ ContractID_String a)%string) by congruence.
      subst s. rewrite NewAgentIDFromString_C in Hparse.
      destruct (NewContractIDFromString (ContractID_String a))
        as [cid|e] eqn:Htxt; [|discriminate].
      injection Hparse as Hparse. exists cid. now split.
Qed.

End roundtrip.

Section reading.
Context `{L : ledgerstate} {R : Type} `{Rd : io_Reader R}.

(** C9: [ReadAgentID] makes one [Read] into the [AgentIDLength] bytes of the
    destination.  It returns no error only when that read delivered exactly
    [AgentIDLength] bytes without error, the destination then being the
    buffer the reader filled; a read of fewer bytes is always answered with
    an error. *)
Theorem ReadAgentID_exact (r r' : R) (agentID p' : AgentID) (n : nat)
    (err : option error) :
  Read r agentID = (r', p', n, err) ->
  exists res,
    ReadAgentID r agentID = (r', p', res)
    /\ (res = None <-> err = None /\ n = AgentIDLength)
    /\ (n < AgentIDLength -> res <> None).
Proof.
  intros Hread. unfold ReadAgentID. rewrite Hread.
  destruct err as [e|].
  - eexists. split; [reflexivity|]. split.
    + split; [discriminate | intros [H _]; discriminate].
    + discriminate.
  - destruct (n =? AgentIDLength) eqn:Hn; simpl.
    + apply Nat.eqb_eq in Hn. eexists. split; [reflexivity|]. split.
      * tauto.
      * lia.
    + apply Nat.eqb_neq in Hn. eexists. split; [reflexivity|]. split.
      * split; [discriminate | tauto].
      * discriminate.
Qed.

End reading.

(** ** Further properties of agentid.go *)

Section variants.
Context `{L : ledgerstate} `{B : base58} `{T : contractid_text}.

Lemma IsAddress_of_zero_handle (c : ContractID) :
  is_ContractID c -> ContractID_Hname c = 0%N -> IsAddress c = true.
Proof.
  intros Hc Hh. apply IsAddress_true.
  unfold ContractID_Hname in Hh. fold (hnameField c) in Hh.
  apply Hname_of_bytes_zero in Hh.
  rewrite length_hnameField in Hh by exact Hc. exact Hh.
Qed.

Lemma IsAddress_of_nonzero_handle (c : ContractID) :
  is_ContractID c -> ContractID_Hname c <> 0%N -> IsAddress c = false.
Proof.
  intros Hc Hh. apply IsAddress_false. intros Hz. apply Hh.
  unfold ContractID_Hname. fold (hnameField c).
  apply Hname_of_bytes_zero.
  rewrite length_hnameField by exact Hc. exact Hz.
Qed.

Lemma zero_AgentID_is_AgentID : is_AgentID (zero_bytes AgentIDLength).
Proof. apply length_zero_bytes. Qed.

Lemma IsAddress_zero_AgentID : IsAddress (zero_bytes AgentIDLength) = true.
Proof.
  apply IsAddress_true.
  unfold AgentIDLength, ContractIDLength, zero_bytes.
  rewrite repeat_app. unfold hnameField.
  apply slice_suffix; apply repeat_length.
Qed.

(** The constructors keep identifiers apart: two contract locators give the
    same identifier only if they are the same locator, and two addresses
    only if their byte arrays are the same. *)
Theorem constructors_injective :
  (forall c1 c2 : ContractID,
      is_ContractID c1 -> is_ContractID c2 ->
      NewAgentIDFromContractID c1 = NewAgentIDFromContractID c2 -> c1 = c2)
  /\ (forall a1 a2 : Address,
        NewAgentIDFromAddress a1 = NewAgentIDFromAddress a2
        <-> Address_Array a1 = Address_Array a2).
Proof.
  split.
  - intros c1 c2 H1 H2 E.
    rewrite !NewAgentIDFromContractID_bytes in E by assumption. exact E.
  - intros a1 a2. rewrite !NewAgentIDFromAddress_bytes. split.
    + apply app_inv_tail.
    + intros ->. reflexivity.
Qed.

(** The identifier of a contract locator with a non-zero handle is the
    identifier of no address. *)
Theorem contract_id_is_no_address_id (c : ContractID) (addr : Address) :
  is_ContractID c -> ContractID_Hname c <> 0%N ->
  NewAgentIDFromContractID c <> NewAgentIDFromAddress addr.
Proof.
  intros Hc Hh E.
  assert (Hv := IsAddress_NewAgentIDFromAddress addr).
  rewrite <- E, NewAgentIDFromContractID_bytes in Hv by exact Hc.
  rewrite (IsAddress_of_nonzero_handle c Hc Hh) in Hv. discriminate.
Qed.

(** What an accessor returns builds the identifier again: the contract
    locator that [MustContractID] returns, and the address that
    [MustAddress] returns when its array is the chain field it was decoded
    from. *)
Theorem accessors_invert_constructors (a : AgentID) :
  is_AgentID a ->
  (forall c, MustContractID a = Returns c ->
      IsAddress a = false /\ is_ContractID c
      /\ NewAgentIDFromContractID c = a)
  /\ (forall addr, MustAddress a = Returns addr ->
        Address_Array addr = chainIDField a ->
        IsAddress a = true /\ NewAgentIDFromAddress addr = a).
Proof.
  intros Hlen. split.
  - intros c Hm. unfold MustContractID in Hm.
    destruct (IsAddress a) eqn:Hv; [discriminate|].
    cbv beta iota zeta in Hm. rewrite copy_full in Hm
      by (rewrite length_zero_bytes; exact Hlen).
    injection Hm as Ec. subst c.
    split; [reflexivity|]. split; [exact Hlen|].
    now apply NewAgentIDFromContractID_bytes.
  - intros addr Hm Harr. unfold MustAddress in Hm.
    destruct (IsAddress a) eqn:Hv; [|discriminate].
    split; [reflexivity|].
    rewrite NewAgentIDFromAddress_bytes, Harr.
    apply IsAddress_true in Hv. rewrite <- Hv.
    symmetry. now apply AgentID_fields.
Qed.

(** A text that [String] returns starts with the prefix of the identifier's
    variant, so [NewAgentIDFromString] passes its length and prefix checks
    and answers with what that variant's parser makes of the rest. *)
Theorem rendered_text_reaches_its_parser (a : AgentID) (s : string) :
  AgentID_String a = Returns s ->
  2 <= String.length s
  /\ exists text,
      (IsAddress a = true /\ s = ("A/" ++ text)%string
       /\ NewAgentIDFromString s =
          match AddressFromBase58EncodedString text with
          | Err err => (zero_bytes AgentIDLength, Some err)
          | Ok addr => (NewAgentIDFromAddress addr, None)
          end)
      \/ (IsAddress a = false /\ s = ("C/" ++ text)%string
          /\ NewAgentIDFromString s =
             match NewContractIDFromString text with
             | Err err => (zero_bytes AgentIDLength, Some err)
             | Ok cid => (NewAgentIDFromContractID cid, None)
             end).
Proof.
  intros Hs. unfold AgentID_String in Hs.
  destruct (IsAddress a) eqn:Hv.
  - destruct (MustAddress a) as [addr|v]; [|discriminate].
    cbv [outcome_bind] in Hs. injection Hs as Es.
    subst s. split; [simpl; lia|].
    exists (Address_String addr). left.
    split; [reflexivity|]. split; [reflexivity|].
    apply NewAgentIDFromString_A.
  - destruct (MustContractID a) as [cid|v]; [|discriminate].
    cbv [outcome_bind] in Hs. injection Hs as Es.
    subst s. split; [simpl; lia|].
    exists (ContractID_String cid). right.
    split; [reflexivity|]. split; [reflexivity|].
    apply NewAgentIDFromString_C.
Qed.

(** A "C/" text whose locator has handle 0 is parsed without error, into an
    identifier of the address variant: [MustContractID] panics on it and
    [String] does not render it with "C/" again. *)
Theorem contract_text_with_zero_handle (rest : string) (cid : ContractID) :
  NewContractIDFromString rest = Ok cid ->
  is_ContractID cid -> ContractID_Hname cid = 0%N ->
  NewAgentIDFromString ("C/" ++ rest) = (cid, None)
  /\ IsAddress cid = true
  /\ MustContractID cid = Panics (panic_string "not a contract")
  /\ (forall s, AgentID_String cid = Returns s ->
      string_take 2 s = "A/"%string).
Proof.
  intros Hparse Hc Hh.
  assert (Hv := IsAddress_of_zero_handle cid Hc Hh).
  split.
  { rewrite NewAgentIDFromString_C, Hparse.
    now rewrite NewAgentIDFromContractID_bytes. }
  split; [exact Hv|]. split.
  { unfold MustContractID. rewrite Hv. reflexivity. }
  intros s Hs. rewrite (AgentID_String_address cid Hv) in Hs.
  destruct (AddressFromBytes (chainIDField cid)) as [[addr n]|e];
    [|discriminate].
  assert (Es : s = ("A/" ++ Address_String addr)%string) by congruence.
  subst s. reflexivity.
Qed.

(** [NewAgentIDFromString] and [NewAgentIDFromBytes] always return an array
    of [AgentIDLength] bytes, and with an error it is the zero array, which
    [IsAddress] takes for an address. *)
Theorem failed_constructors_return_zero :
  (forall s, is_AgentID (fst (NewAgentIDFromString s)))
  /\ (forall b, is_AgentID (fst (NewAgentIDFromBytes b)))
  /\ (forall s err, snd (NewAgentIDFromString s) = Some err ->
        fst (NewAgentIDFromString s) = zero_bytes AgentIDLength)
  /\ (forall b err, snd (NewAgentIDFromBytes b) = Some err ->
        fst (NewAgentIDFromBytes b) = zero_bytes AgentIDLength)
  /\ IsAddress (zero_bytes AgentIDLength) = true.
Proof.
  split; [|split; [|split; [|split]]].
  - intros s. unfold NewAgentIDFromString.
    destruct (String.length s <? 2); [apply zero_AgentID_is_AgentID|].
    destruct (String.eqb _ "A/").
    { destruct (AddressFromBase58EncodedString _); simpl;
        [apply NewAgentIDFromContractID_is_AgentID
        | apply zero_AgentID_is_AgentID]. }
    destruct (String.eqb _ "C/"); [|apply zero_AgentID_is_AgentID].
    destruct (NewContractIDFromString _); simpl;
      [apply NewAgentIDFromContractID_is_AgentID
      | apply zero_AgentID_is_AgentID].
  - intros b. unfold NewAgentIDFromBytes.
    destruct (negb _); simpl; [apply zero_AgentID_is_AgentID|].
    unfold is_AgentID. rewrite length_copy. apply length_zero_bytes.
  - intros s err. unfold NewAgentIDFromString.
    destruct (String.length s <? 2); [reflexivity|].
    destruct (String.eqb _ "A/").
    { destruct (AddressFromBase58EncodedString _); simpl;
        [discriminate | reflexivity]. }
    destruct (String.eqb _ "C/"); [|reflexivity].
    destruct (NewContractIDFromString _); simpl;
      [discriminate | reflexivity].
  - intros b err. unfold NewAgentIDFromBytes.
    destruct (negb _); simpl; [reflexivity | discriminate].
  - apply IsAddress_zero_AgentID.
Qed.

End variants.

(** ** Properties of decodeRegistry *)

Section registry.
Context `{RC : registry_codec}.

Lemma Registry_set_same (r : Registry) (c : Color) (tm : TokenMetadata) :
  Registry_set r c tm c = Some tm.
Proof.
  unfold Registry_set. destruct (Color_eq_dec c c); congruence.
Qed.

Lemma Registry_set_other (r : Registry) (c d : Color) (tm : TokenMetadata) :
  c <> d -> Registry_set r c tm d = r d.
Proof.
  intros H. unfold Registry_set. destruct (Color_eq_dec c d); congruence.
Qed.

Lemma decodeRegistry_range_app (pre post : list Entry) (r : Registry) :
  decodeRegistry_range (pre ++ post) r =
  match decodeRegistry_range pre r with
  | Ok m => decodeRegistry_range post m
  | Err err => Err err
  end.
Proof.
  revert r. induction pre as [|e pre IH]; intros r; simpl.
  - reflexivity.
  - destruct (ColorFromBytes (Key e)) as [[c n]|err]; [|reflexivity].
    destruct (TokenMetadata_Read (Value e)) as [tm|err]; [|reflexivity].
    apply IH.
Qed.

Lemma decodeRegistry_range_total (es : list Entry) (r : Registry) :
  Forall (fun e => exists c tm, entry_decodes e c tm) es ->
  exists m, decodeRegistry_range es r = Ok m.
Proof.
  intros H. revert r. induction H as [|e es (c & tm & (n & Hk) & Hv) _ IH];
    intros r; simpl.
  - now exists r.
  - rewrite Hk, Hv. apply IH.
Qed.

Lemma decodeRegistry_range_ok (es : list Entry) (r m : Registry) :
  decodeRegistry_range es r = Ok m ->
  Forall (fun e => exists c tm, entry_decodes e c tm) es.
Proof.
  revert r. induction es as [|e es IH]; intros r H; simpl in H.
  - constructor.
  - destruct (ColorFromBytes (Key e)) as [[c n]|err] eqn:Hk; [|discriminate].
    destruct (TokenMetadata_Read (Value e)) as [tm|err] eqn:Hv;
      [|discriminate].
    constructor; [|eapply IH; eassumption].
    exists c, tm. split; [now exists n | exact Hv].
Qed.

Lemma decodeRegistry_range_misses (c : Color) (es : list Entry)
    (r m : Registry) :
  Forall (entry_misses c) es ->
  decodeRegistry_range es r = Ok m -> m c = r c.
Proof.
  intros H. revert r. induction H as [|e es He _ IH]; intros r Hm;
    simpl in Hm.
  - congruence.
  - destruct (ColorFromBytes (Key e)) as [[d n]|err] eqn:Hk; [|discriminate].
    destruct (TokenMetadata_Read (Value e)) as [tm|err]; [|discriminate].
    rewrite (IH _ Hm). apply Registry_set_other. eapply He. exact Hk.
Qed.

Lemma decodeRegistry_range_bindings (es : list Entry) (r m : Registry)
    (c : Color) (tm : TokenMetadata) :
  decodeRegistry_range es r = Ok m -> m c = Some tm ->
  r c = Some tm \/ exists e, In e es /\ entry_decodes e c tm.
Proof.
  revert r. induction es as [|e es IH]; intros r Hm Hc; simpl in Hm.
  - left. congruence.
  - destruct (ColorFromBytes (Key e)) as [[d n]|err] eqn:Hk; [|discriminate].
    destruct (TokenMetadata_Read (Value e)) as [tm'|err] eqn:Hv;
      [|discriminate].
    destruct (IH _ Hm Hc) as [Hset | (e' & Hin & Hdec)].
    + unfold Registry_set in Hset.
      destruct (Color_eq_dec d c) as [->|Hne].
      * right. exists e. split; [now left|].
        split; [now exists n | congruence].
      * now left.
    + right. exists e'. split; [now right | exact Hdec].
Qed.

(** [decodeRegistry] returns a map exactly when every entry decodes: each
    key is a colour and each value is metadata.  Every binding of that map
    is the colour and the metadata of one of the entries, so for no entries
    the map is empty. *)
Theorem decodeRegistry_succeeds_iff (es : list Entry) :
  ((exists m, decodeRegistry es = Ok m)
   <-> Forall (fun e => exists c tm, entry_decodes e c tm) es)
  /\ (forall m c tm,
        decodeRegistry es = Ok m -> m c = Some tm ->
        exists e, In e es /\ entry_decodes e c tm)
  /\ (exists m, decodeRegistry [] = Ok m /\ forall c, m c = None).
Proof.
  split; [|split].
  - split.
    + intros [m Hm]. eapply decodeRegistry_range_ok. exact Hm.
    + apply decodeRegistry_range_total.
  - intros m c tm Hm Hc.
    destruct (decodeRegistry_range_bindings es _ m c tm Hm Hc)
      as [Hinit | Hex]; [discriminate | exact Hex].
  - exists Registry_make. split; reflexivity.
Qed.

(** [decodeRegistry] returns the error of the first entry that does not
    decode, the key being tried before the value, whatever follows it. *)
Theorem decodeRegistry_first_error (pre post : list Entry) (x : Entry)
    (err : error) :
  Forall (fun e => exists c tm, entry_decodes e c tm) pre ->
  ColorFromBytes (Key x) = Err err
  \/ (exists c n, ColorFromBytes (Key x) = Ok (c, n))
     /\ TokenMetadata_Read (Value x) = Err err ->
  decodeRegistry (pre ++ x :: post) = Err err.
Proof.
  intros Hpre Hx. unfold decodeRegistry.
  rewrite decodeRegistry_range_app.
  destruct (decodeRegistry_range_total pre Registry_make Hpre) as [m ->].
  simpl. destruct Hx as [Hk | [(c & n & Hk) Hv]].
  - rewrite Hk. reflexivity.
  - rewrite Hk, Hv. reflexivity.
Qed.

(** In the map that [decodeRegistry] returns a colour is bound to the
    metadata of the last entry with that colour: later entries replace
    earlier ones. *)
Theorem decodeRegistry_last_entry_wins (pre post : list Entry) (x : Entry)
    (m : Registry) (c : Color) (tm : TokenMetadata) :
  decodeRegistry (pre ++ x :: post) = Ok m ->
  entry_decodes x c tm ->
  Forall (entry_misses c) post ->
  m c = Some tm.
Proof.
  intros Hm [(n & Hk) Hv] Hpost. unfold decodeRegistry in Hm.
  rewrite decodeRegistry_range_app in Hm.
  destruct (decodeRegistry_range pre Registry_make) as [m0|err];
    [|discriminate].
  simpl in Hm. rewrite Hk, Hv in Hm.
  rewrite (decodeRegistry_range_misses c post _ m Hpost Hm).
  apply Registry_set_same.
Qed.

(** A colour that is the key of no entry is not in the map that
    [decodeRegistry] returns; for no entries the map is empty. *)
Theorem decodeRegistry_no_entry_no_binding (es : list Entry) (m : Registry)
    (c : Color) :
  decodeRegistry es = Ok m ->
  Forall (entry_misses c) es ->
  m c = None.
Proof.
  intros Hm Hes.
  apply (decodeRegistry_range_misses c es Registry_make m Hes Hm).
Qed.

End registry.

(** ** The properties on the reference instance *)

Import Reference.

(** An address identifier whose chain field is no address: the handle is
    zero, so [String] goes through [MustAddress], which panics with the
    error of [AddressFromBytes]; there is no text to parse back. *)
Lemma text_roundtrip_fails_without_address :
  is_AgentID agent_type3
  /\ IsAddress agent_type3 = true
  /\ AgentID_String agent_type3
     = Panics (panic_error (pkg_error "unsupported address type"))
  /\ ~ (exists s, AgentID_String agent_type3 = Returns s
                  /\ NewAgentIDFromString s = (agent_type3, None)).
Proof.
  repeat split.
  intros (s & Hs & _). vm_compute in Hs. discriminate.
Qed.

Lemma text_roundtrip_witness :
  (is_AgentID agent_addr1
   /\ AgentID_String agent_addr1 = Returns text_addr1
   /\ NewAgentIDFromString text_addr1 = (agent_addr1, None))
  /\ (is_AgentID locator7
      /\ AgentID_String locator7 = Returns text_locator7
      /\ NewAgentIDFromString text_locator7 = (locator7, None)).
Proof.
  split.
  - assert (Hlen : is_AgentID agent_addr1) by reflexivity.
    assert (Hrb : reads_back agent_addr1).
    { exists addr1, 33, addr1. vm_compute. repeat split. }
    destruct (proj1 (text_roundtrip agent_addr1 Hlen) Hrb) as (s & Hs & Hp).
    assert (Es : s = text_addr1).
    { vm_compute in Hs. injection Hs as <-. reflexivity. }
    rewrite Es in Hs, Hp. repeat split; assumption.
  - assert (Hlen : is_AgentID locator7) by reflexivity.
    assert (Hrb : reads_back locator7).
    { exists locator7. vm_compute. repeat split. }
    destruct (proj1 (text_roundtrip locator7 Hlen) Hrb) as (s & Hs & Hp).
    assert (Es : s = text_locator7).
    { vm_compute in Hs. injection Hs as <-. reflexivity. }
    rewrite Es in Hs, Hp. repeat split; assumption.
Defined.

Lemma IsAddress_iff_zero_handle_witness :
  (IsAddress agent_addr1 = true
   /\ firstn HnameLength (skipn ChainIDLength agent_addr1)
      = repeat x00 HnameLength)
  /\ (length addr1 = ChainIDLength /\ length (Hname_Bytes 7%N) = HnameLength
      /\ Hname_Bytes 7%N <> repeat x00 HnameLength
      /\ IsAddress (addr1 ++ Hname_Bytes 7%N) = false)
  /\ (is_ContractID agent_addr1 /\ ContractID_Hname agent_addr1 = 0%N
      /\ IsAddress (NewAgentIDFromContractID agent_addr1) = true)
  /\ (length addr1 = ChainIDLength
      /\ IsAddress (NewAgentIDFromContractID (NewContractID addr1 0%N)) = true).
Proof.
  destruct IsAddress_iff_zero_handle as (H1 & H2 & H3 & H4).
  split; [|split; [|split]].
  - assert (Hz : firstn HnameLength (skipn ChainIDLength agent_addr1)
                 = repeat x00 HnameLength) by reflexivity.
    split; [|exact Hz]. apply (proj2 (H1 agent_addr1)). exact Hz.
  - assert (Hc : length addr1 = ChainIDLength) by reflexivity.
    assert (Hh : length (Hname_Bytes 7%N) = HnameLength) by reflexivity.
    assert (Hne : Hname_Bytes 7%N <> repeat x00 HnameLength)
      by (vm_compute; discriminate).
    split; [exact Hc|]. split; [exact Hh|]. split; [exact Hne|].
    destruct (IsAddress (addr1 ++ Hname_Bytes 7%N)) eqn:Hv; [|reflexivity].
    exfalso. apply Hne. apply (proj1 (H2 addr1 (Hname_Bytes 7%N) Hc Hh)).
    exact Hv.
  - assert (Hc : is_ContractID agent_addr1) by reflexivity.
    assert (Hh : ContractID_Hname agent_addr1 = 0%N) by reflexivity.
    split; [exact Hc|]. split; [exact Hh|].
    apply (proj2 (H3 agent_addr1 Hc)). exact Hh.
  - split; [reflexivity|]. apply (H4 addr1). reflexivity.
Defined.

Lemma wrong_variant_panics_witness :
  (IsAddress locator7 = false
   /\ MustAddress locator7 = Panics (panic_string "not an address"))
  /\ (IsAddress agent_addr1 = true
      /\ MustContractID agent_addr1 = Panics (panic_string "not a contract")).
Proof.
  split.
  - split; [reflexivity|].
    apply (proj1 (proj2 (proj2 (wrong_variant_panics locator7)))).
    reflexivity.
  - split; [reflexivity|].
    apply (proj2 (proj2 (proj2 (wrong_variant_panics agent_addr1)))).
    reflexivity.
Defined.

Lemma address_embedding_witness :
  AddressFromBytes (Address_Array addr1) = Ok (addr1, 33)
  /\ NewAgentIDFromAddress addr1 = agent_addr1
  /\ IsAddress (NewAgentIDFromAddress addr1) = true
  /\ MustAddress (NewAgentIDFromAddress addr1) = Returns addr1.
Proof.
  destruct (address_embedding addr1) as (_ & Hv & _ & Hm).
  split; [reflexivity|]. split; [reflexivity|]. split; [exact Hv|].
  apply (Hm 33). reflexivity.
Defined.

Lemma locator_embedding_witness :
  is_ContractID locator7
  /\ ContractID_Hname locator7 = 7%N
  /\ IsAddress (NewAgentIDFromContractID locator7) = false
  /\ MustContractID (NewAgentIDFromContractID locator7) = Returns locator7.
Proof.
  assert (Hc : is_ContractID locator7) by reflexivity.
  assert (Hh : ContractID_Hname locator7 <> 0%N) by (vm_compute; discriminate).
  destruct (locator_embedding locator7 Hc Hh) as (_ & Hv & Hm).
  repeat split; assumption.
Defined.

Lemma NewAgentIDFromBytes_spec_witness :
  (length agent_addr1 = AgentIDLength
   /\ NewAgentIDFromBytes agent_addr1 = (agent_addr1, None))
  /\ (length (firstn 36 agent_addr1) <> AgentIDLength
      /\ snd (NewAgentIDFromBytes (firstn 36 agent_addr1))
         = Some ErrWrongDataLength)
  /\ (length (x00 :: agent_addr1) = S AgentIDLength
      /\ snd (NewAgentIDFromBytes (x00 :: agent_addr1))
         = Some ErrWrongDataLength).
Proof.
  destruct NewAgentIDFromBytes_spec as (Hok & Hbad & Hnear).
  split; [split; [reflexivity | apply Hok; reflexivity]|]. split.
  - assert (Hlen : length (firstn 36 agent_addr1) <> AgentIDLength)
      by (vm_compute; discriminate).
    split; [exact Hlen|]. rewrite (Hbad _ Hlen). reflexivity.
  - split; [reflexivity|]. apply Hnear. right. reflexivity.
Defined.

Lemma NewAgentIDFromString_rejects_witness :
  (String.length "X" < 2
   /\ snd (NewAgentIDFromString "X") = Some (errors_New "invalid length"))
  /\ (2 <= String.length "B/18nC"
      /\ snd (NewAgentIDFromString "B/18nC")
         = Some (errors_New "invalid prefix"))
  /\ (AddressFromBase58EncodedString "0OIl"
      = Err (pkg_error "invalid base58 digit")
      /\ snd (NewAgentIDFromString "A/0OIl")
         = Some (pkg_error "invalid base58 digit"))
  /\ (NewContractIDFromString "18nC" = Err (pkg_error "wrong locator length")
      /\ snd (NewAgentIDFromString "C/18nC")
         = Some (pkg_error "wrong locator length")).
Proof.
  destruct NewAgentIDFromString_rejects
    as (Hlen & Hpre & _ & _ & _ & HA & HC).
  split; [|split; [|split]].
  - assert (H : String.length "X" < 2) by (simpl; lia).
    split; [exact H|]. rewrite (Hlen _ H). reflexivity.
  - assert (H : 2 <= String.length "B/18nC") by (simpl; lia).
    split; [exact H|]. rewrite (Hpre _ H); [reflexivity | | ]; discriminate.
  - assert (H : AddressFromBase58EncodedString "0OIl"
                = Err (pkg_error "invalid base58 digit")) by reflexivity.
    split; [exact H|]. exact (f_equal snd (HA "0OIl"%string _ H)).
  - assert (H : NewContractIDFromString "18nC"
                = Err (pkg_error "wrong locator length")) by reflexivity.
    split; [exact H|]. exact (f_equal snd (HC "18nC"%string _ H)).
Defined.

(** An identifier of the address variant that [String] does not render:
    its handle is zero and its chain field starts with the undefined address
    type 3, so [String] panics instead of returning a text with "A/". *)
Lemma String_panics_without_address :
  is_AgentID agent_type3
  /\ IsAddress agent_type3 = true
  /\ ~ (exists text, AgentID_String agent_type3 = Returns ("A/" ++ text)%string).
Proof.
  split; [reflexivity|]. split; [reflexivity|].
  intros (text & Hs). vm_compute in Hs. discriminate.
Qed.

Lemma String_renders_variant_witness :
  (is_AgentID agent_addr1
   /\ AgentID_String agent_addr1
      = Returns ("A/" ++ Address_String addr1)%string)
  /\ (is_AgentID locator7
      /\ AgentID_String locator7
         = Returns ("C/" ++ ContractID_String locator7)%string)
  /\ (is_AgentID agent_type3
      /\ AgentID_String agent_type3
         = Panics (panic_error (pkg_error "unsupported address type"))).
Proof.
  split; [|split].
  - assert (Hlen : is_AgentID agent_addr1) by reflexivity.
    split; [exact Hlen|].
    rewrite (proj1 (String_renders_variant agent_addr1 Hlen)). reflexivity.
  - assert (Hlen : is_AgentID locator7) by reflexivity.
    split; [exact Hlen|].
    rewrite (proj1 (String_renders_variant locator7 Hlen)). reflexivity.
  - assert (Hlen : is_AgentID agent_type3) by reflexivity.
    split; [exact Hlen|].
    rewrite (proj1 (String_renders_variant agent_type3 Hlen)). reflexivity.
Defined.

Lemma parsed_address_has_zero_handle_witness :
  string_take 2 text_addr1 = "A/"%string
  /\ NewAgentIDFromString text_addr1 = (agent_addr1, None)
  /\ hnameField agent_addr1 = zero_bytes HnameLength
  /\ IsAddress agent_addr1 = true
  /\ MustAddress agent_addr1 <> Panics (panic_string "not an address").
Proof.
  assert (Hpre : string_take 2 text_addr1 = "A/"%string) by reflexivity.
  assert (Hparse : NewAgentIDFromString text_addr1 = (agent_addr1, None))
    by (vm_compute; reflexivity).
  destruct (parsed_address_has_zero_handle text_addr1 agent_addr1 Hpre Hparse)
    as (_ & Hz & Hv & Hm).
  repeat split; assumption.
Defined.

(** A stream that holds one identifier and one more byte, and a stream that
    ends after five bytes. *)
Lemma ReadAgentID_exact_witness :
  (Read (agent_addr1 ++ [Byte.x01]) (zero_bytes 37)
   = ([Byte.x01], agent_addr1, 37, None)
   /\ ReadAgentID (agent_addr1 ++ [Byte.x01]) (zero_bytes 37)
      = ([Byte.x01], agent_addr1, None))
  /\ (Read (firstn 5 agent_addr1) (zero_bytes 37)
      = ([], firstn 5 agent_addr1 ++ zero_bytes 32, 5, None)
      /\ snd (ReadAgentID (firstn 5 agent_addr1) (zero_bytes 37)) <> None).
Proof.
  split.
  - assert (Hread : Read (agent_addr1 ++ [Byte.x01]) (zero_bytes 37)
                    = ([Byte.x01], agent_addr1, 37, None)) by reflexivity.
    destruct (ReadAgentID_exact _ _ _ _ _ _ Hread) as (res & Hres & Hok & _).
    split; [exact Hread|]. rewrite Hres.
    rewrite (proj2 Hok); [reflexivity | split; reflexivity].
  - assert (Hread : Read (firstn 5 agent_addr1) (zero_bytes 37)
                    = ([], firstn 5 agent_addr1 ++ zero_bytes 32, 5, None))
      by reflexivity.
    destruct (ReadAgentID_exact _ _ _ _ _ _ Hread) as (res & Hres & _ & Hshort).
    split; [exact Hread|]. rewrite Hres. apply Hshort.
    unfold AgentIDLength, ContractIDLength, ChainIDLength, HnameLength.
    simpl. lia.
Defined.

(** [ReadAgentID] on an in-memory stream that is not at its end: with
    [AgentIDLength] bytes or more left it takes exactly the first
    [AgentIDLength] of them; with fewer left it returns its error, the
    stream is used up and the destination's first bytes are overwritten. *)
Lemma ReadAgentID_stream (L : ledgerstate) (data : list byte) (dst : AgentID) :
  @is_AgentID L dst -> data <> [] ->
  @ReadAgentID L _ stream data dst =
  if @AgentIDLength L <=? length data
  then (skipn (@AgentIDLength L) data, firstn (@AgentIDLength L) data, None)
  else ([], data ++ skipn (length data) dst,
        Some (errors_New "error while reading agent ID")).
Proof.
  intros Hdst Hdata. unfold ReadAgentID.
  assert (Hread : Read data dst
                  = (skipn (Nat.min (length dst) (length data)) data,
                     copy dst (firstn (Nat.min (length dst) (length data)) data),
                     Nat.min (length dst) (length data), None)).
  { destruct data; [congruence | reflexivity]. }
  unfold is_AgentID in Hdst. rewrite Hread, !Hdst. clear Hread.
  destruct (AgentIDLength <=? length data) eqn:Hle.
  - apply Nat.leb_le in Hle. rewrite Nat.min_l by exact Hle.
    rewrite Nat.eqb_refl. simpl.
    rewrite copy_full; [reflexivity|].
    rewrite length_firstn, Hdst. lia.
  - apply Nat.leb_gt in Hle. rewrite Nat.min_r by lia.
    assert (Hne : (length data =? AgentIDLength) = false)
      by (apply Nat.eqb_neq; lia).
    rewrite Hne. simpl.
    rewrite skipn_all, firstn_all. unfold copy.
    rewrite Hdst, firstn_all2 by lia. reflexivity.
Qed.

Lemma ReadAgentID_stream_witness :
  ReadAgentID (firstn 5 agent_addr1) agent_type3
  = ([], firstn 5 agent_addr1 ++ zero_bytes 32,
     Some (errors_New "error while reading agent ID")).
Proof.
  assert (Hdst : is_AgentID agent_type3) by reflexivity.
  assert (Hdata : firstn 5 agent_addr1 <> []) by (vm_compute; discriminate).
  rewrite (ReadAgentID_stream ledger _ _ Hdst Hdata). reflexivity.
Defined.

(** ** The further properties on the reference instances *)

Lemma constructors_injective_witness :
  (is_ContractID locator7 /\ is_ContractID agent_addr1
   /\ locator7 <> agent_addr1
   /\ NewAgentIDFromContractID locator7 <> NewAgentIDFromContractID agent_addr1)
  /\ (NewAgentIDFromAddress addr1 = NewAgentIDFromAddress (addr1 ++ [Byte.x09])
      /\ Address_Array addr1 = Address_Array (addr1 ++ [Byte.x09])).
Proof.
  destruct constructors_injective as (Hc & Ha).
  split.
  - assert (H1 : is_ContractID locator7) by reflexivity.
    assert (H2 : is_ContractID agent_addr1) by reflexivity.
    assert (Hne : locator7 <> agent_addr1) by (vm_compute; discriminate).
    split; [exact H1|]. split; [exact H2|]. split; [exact Hne|].
    intros E. apply Hne. exact (Hc locator7 agent_addr1 H1 H2 E).
  - assert (Harr : Address_Array addr1 = Address_Array (addr1 ++ [Byte.x09]))
      by reflexivity.
    split; [|exact Harr].
    apply (proj2 (Ha addr1 (addr1 ++ [Byte.x09]))). exact Harr.
Defined.

Lemma contract_id_is_no_address_id_witness :
  is_ContractID locator7 /\ ContractID_Hname locator7 <> 0%N
  /\ NewAgentIDFromContractID locator7 <> NewAgentIDFromAddress addr1.
Proof.
  assert (Hc : is_ContractID locator7) by reflexivity.
  assert (Hh : ContractID_Hname locator7 <> 0%N) by (vm_compute; discriminate).
  split; [exact Hc|]. split; [exact Hh|].
  exact (contract_id_is_no_address_id locator7 addr1 Hc Hh).
Defined.

Lemma accessors_invert_constructors_witness :
  (is_AgentID locator7 /\ MustContractID locator7 = Returns locator7
   /\ NewAgentIDFromContractID locator7 = locator7)
  /\ (is_AgentID agent_addr1 /\ MustAddress agent_addr1 = Returns addr1
      /\ Address_Array addr1 = chainIDField agent_addr1
      /\ NewAgentIDFromAddress addr1 = agent_addr1).
Proof.
  split.
  - assert (Hlen : is_AgentID locator7) by reflexivity.
    assert (Hm : MustContractID locator7 = Returns locator7) by reflexivity.
    split; [exact Hlen|]. split; [exact Hm|].
    apply (proj1 (accessors_invert_constructors locator7 Hlen) locator7 Hm).
  - assert (Hlen : is_AgentID agent_addr1) by reflexivity.
    assert (Hm : MustAddress agent_addr1 = Returns addr1) by reflexivity.
    assert (Harr : Address_Array addr1 = chainIDField agent_addr1)
      by reflexivity.
    split; [exact Hlen|]. split; [exact Hm|]. split; [exact Harr|].
    apply (proj2 (accessors_invert_constructors agent_addr1 Hlen)
             addr1 Hm Harr).
Defined.

Lemma rendered_text_reaches_its_parser_witness :
  AgentID_String locator7 = Returns text_locator7
  /\ 2 <= String.length text_locator7
  /\ exists text,
      (IsAddress locator7 = true /\ text_locator7 = ("A/" ++ text)%string
       /\ NewAgentIDFromString text_locator7 =
          match AddressFromBase58EncodedString text with
          | Err err => (zero_bytes AgentIDLength, Some err)
          | Ok addr => (NewAgentIDFromAddress addr, None)
          end)
      \/ (IsAddress locator7 = false /\ text_locator7 = ("C/" ++ text)%string
          /\ NewAgentIDFromString text_locator7 =
             match NewContractIDFromString text with
             | Err err => (zero_bytes AgentIDLength, Some err)
             | Ok cid => (NewAgentIDFromContractID cid, None)
             end).
Proof.
  assert (Hs : AgentID_String locator7 = Returns text_locator7)
    by (vm_compute; reflexivity).
  split; [exact Hs|].
  exact (rendered_text_reaches_its_parser locator7 text_locator7 Hs).
Defined.

Lemma contract_text_with_zero_handle_witness :
  NewContractIDFromString (ContractID_String agent_addr1) = Ok agent_addr1
  /\ ContractID_Hname agent_addr1 = 0%N
  /\ NewAgentIDFromString ("C/" ++ ContractID_String agent_addr1)
     = (agent_addr1, None)
  /\ IsAddress agent_addr1 = true
  /\ MustContractID agent_addr1 = Panics (panic_string "not a contract").
Proof.
  assert (Hp : NewContractIDFromString (ContractID_String agent_addr1)
               = Ok agent_addr1) by (vm_compute; reflexivity).
  assert (Hc : is_ContractID agent_addr1) by reflexivity.
  assert (Hh : ContractID_Hname agent_addr1 = 0%N) by reflexivity.
  destruct (contract_text_with_zero_handle _ agent_addr1 Hp Hc Hh)
    as (H1 & H2 & H3 & _).
  split; [exact Hp|]. split; [exact Hh|]. split; [exact H1|].
  split; [exact H2 | exact H3].
Defined.

Lemma failed_constructors_return_zero_witness :
  snd (NewAgentIDFromString "A/0OIl") = Some (pkg_error "invalid base58 digit")
  /\ fst (NewAgentIDFromString "A/0OIl") = zero_bytes AgentIDLength
  /\ IsAddress (fst (NewAgentIDFromString "A/0OIl")) = true.
Proof.
  destruct failed_constructors_return_zero as (_ & _ & Hs & _ & Hz).
  assert (He : snd (NewAgentIDFromString "A/0OIl")
               = Some (pkg_error "invalid base58 digit")) by reflexivity.
  split; [exact He|]. split; [exact (Hs _ _ He)|].
  rewrite (Hs _ _ He). exact Hz.
Defined.

Import ReferenceRegistry.

Lemma entries3_decode :
  Forall (fun e => exists c tm, entry_decodes e c tm) entries3.
Proof.
  repeat constructor.
  - exists red, [Byte.x0a]. split; [now exists 32 | reflexivity].
  - exists blue, [Byte.x0b]. split; [now exists 32 | reflexivity].
  - exists red, [Byte.x0c]. split; [now exists 32 | reflexivity].
Qed.

Lemma decodeRegistry_succeeds_iff_witness :
  (exists m, decodeRegistry entries3 = Ok m)
  /\ (forall m tm, decodeRegistry entries3 = Ok m -> m blue = Some tm ->
      tm = [Byte.x0b]).
Proof.
  destruct (decodeRegistry_succeeds_iff entries3) as (Hiff & Hbind & _).
  split; [exact (proj2 Hiff entries3_decode)|].
  intros m tm Hm Hc.
  destruct (Hbind m blue tm Hm Hc) as (e & Hin & (n & Hk) & Hv).
  simpl in Hin. destruct Hin as [<- | [<- | [<- | []]]];
    vm_compute in Hk; vm_compute in Hv;
    try discriminate; congruence.
Defined.

Lemma decodeRegistry_first_error_witness :
  decodeRegistry
    ([ {| Key := red; Value := [Byte.x0a] |} ]
     ++ {| Key := [Byte.x01]; Value := [] |}
     :: [ {| Key := blue; Value := [Byte.x0b] |} ])
  = Err (pkg_error "not enough bytes")
  /\ decodeRegistry
       ([ {| Key := red; Value := [Byte.x0a] |} ]
        ++ {| Key := blue; Value := [] |}
        :: [ {| Key := [Byte.x01]; Value := [Byte.x0b] |} ])
     = Err io_EOF.
Proof.
  assert (Hpre : Forall (fun e => exists c tm, entry_decodes e c tm)
                   [ {| Key := red; Value := [Byte.x0a] |} ]).
  { repeat constructor. exists red, [Byte.x0a].
    split; [now exists 32 | reflexivity]. }
  split.
  - apply (decodeRegistry_first_error _ _ _ _ Hpre). left. reflexivity.
  - apply (decodeRegistry_first_error _ _ _ _ Hpre). right.
    split; [now exists blue, 32 | reflexivity].
Defined.

Lemma decodeRegistry_last_entry_wins_witness :
  exists m,
    decodeRegistry entries3 = Ok m
    /\ m red = Some [Byte.x0c] /\ m blue = Some [Byte.x0b].
Proof.
  pose (m := match decodeRegistry entries3 with
             | Ok m => m
             | Err _ => Registry_make
             end).
  assert (Hm : decodeRegistry entries3 = Ok m) by reflexivity.
  exists m. split; [exact Hm|]. split.
  - apply (decodeRegistry_last_entry_wins
             [ {| Key := red; Value := [Byte.x0a] |};
               {| Key := blue; Value := [Byte.x0b] |} ]
             [] {| Key := red; Value := [Byte.x0c] |} m red [Byte.x0c] Hm).
    + split; [now exists 32 | reflexivity].
    + constructor.
  - apply (decodeRegistry_last_entry_wins
             [ {| Key := red; Value := [Byte.x0a] |} ]
             [ {| Key := red; Value := [Byte.x0c] |} ]
             {| Key := blue; Value := [Byte.x0b] |} m blue [Byte.x0b] Hm).
    + split; [now exists 32 | reflexivity].
    + repeat constructor. intros color n H. vm_compute in H.
      injection H as <- _. vm_compute. discriminate.
Defined.

Lemma decodeRegistry_no_entry_no_binding_witness :
  exists m, decodeRegistry entries3 = Ok m /\ m green = None.
Proof.
  pose (m := match decodeRegistry entries3 with
             | Ok m => m
             | Err _ => Registry_make
             end).
  assert (Hm : decodeRegistry entries3 = Ok m) by reflexivity.
  exists m. split; [exact Hm|].
  apply (decodeRegistry_no_entry_no_binding entries3 m green Hm).
  repeat constructor; intros color n H; vm_compute in H;
    injection H as <- _; vm_compute; discriminate.
Defined.
